(** * Verification of the PLOS/DOAJ tobacco-article pipeline (src/run.py)

    Shallow embedding of the parts of [run.py] that the specification talks
    about: the PLOS page reader ([PLOSAPIReader.__next__]) and the driver's
    [for] loop over it, the [queue.Queue] primitive, one iteration of a
    [DOAJValidator] worker, [Counters.update_counters] over [collections.Counter]
    and [save_csv] with [Counter.most_common]. *)

From Stdlib Require Import ZArith Lia List String Bool Sorted Permutation.
Import ListNotations.
Open Scope Z_scope.

(** ** Python values the code reads *)

(** Truthiness of an optional string read with [dict.get(key, None)]:
    [None] and [""] are falsy. *)
Definition truthy_str (o : option string) : bool :=
  match o with
  | Some s => negb (String.eqb s "")
  | None => false
  end.

Definition opt_eqb (a b : option string) : bool :=
  match a, b with
  | Some x, Some y => String.eqb x y
  | None, None => true
  | _, _ => false
  end.

(** An entry of a DOAJ [bibjson.author] list: [{'name': .., 'affiliation': ..}]. *)
Record Author := mkAuthor {
  a_name : option string;
  a_affiliation : option string
}.

(** An article dict as far as the code reads or writes it:
    ['id'], ['journal'], ['author_display'], and the two keys written by
    [validate_and_link], ['doaj_id'] and ['doaj_authors']. [None] means the
    key is absent. *)
Record Article := mkArticle {
  art_id : option string;
  art_journal : option string;
  art_author_display : option (list string);
  art_doaj_id : option string;
  art_doaj_authors : option (list Author)
}.

(** A work item [(article_id, article)]. *)
Definition WorkItem : Type := (Z * Article)%type.

(** ** collections.Counter *)

(** Counter keys built by [update_counters]: [(value, doaj_id, plos_id)]. *)
Definition Key : Type := (option string * option string * option string)%type.

Definition key_eqb (k1 k2 : Key) : bool :=
  match k1, k2 with
  | (a1, b1, c1), (a2, b2, c2) => opt_eqb a1 a2 && opt_eqb b1 b2 && opt_eqb c1 c2
  end.

(** A [Counter] is a dict: an association list in insertion order. *)
Definition counter : Type := list (Key * Z).

(** [counter.get(k, 0)] *)
Fixpoint cget (c : counter) (k : Key) : Z :=
  match c with
  | [] => 0
  | (k', v) :: c' => if key_eqb k k' then v else cget c' k
  end.

(** [counter[k] = v]: an existing key keeps its position, a new key is
    appended at the end (dict insertion order). *)
Fixpoint cset (c : counter) (k : Key) (v : Z) : counter :=
  match c with
  | [] => [(k, v)]
  | (k', v') :: c' => if key_eqb k k' then (k', v) :: c' else (k', v') :: cset c' k v
  end.

(** [Counter.update(iterable)] for a non-mapping iterable
    ([_count_elements]): [mapping[elem] = mapping_get(elem, 0) + 1]. *)
Fixpoint count_elements (c : counter) (l : list Key) : counter :=
  match l with
  | [] => c
  | e :: l' => count_elements (cset c e (cget c e + 1)) l'
  end.

(** [self.update(self)] with [self] a [Counter]: the mapping branch of
    [Counter.update] with [iterable] the very same object. When [self] is
    empty the fast path [dict.update(self, self)] changes nothing. Otherwise
    the loop [for elem, count in iterable.items(): self[elem] = count +
    self_get(elem, 0)] walks the keys of the shared dict (no key is added, so
    the key sequence is fixed) and reads both [count] and [self_get(elem, 0)]
    from the current store. *)
Definition counter_update_self (c : counter) : counter :=
  match c with
  | [] => c
  | _ =>
      fold_left (fun cur e => cset cur e (cget cur e + cget cur e)) (map fst c) c
  end.

(** ** Counters.update_counters *)

(** The three shared counters. In [__main__] the object passed as
    [departments=] (line 206-207) is the module-level [departments] Counter
    of line 203. *)
Record CounterState := mkCounterState {
  authors : counter;
  journals : counter;
  departments : counter
}.

Definition empty_counters : CounterState := mkCounterState [] [] [].

Definition default_list {A} (o : option (list A)) : list A :=
  match o with Some l => l | None => [] end.

(** The local [authors] list of [update_counters]. *)
Definition author_keys (article : Article) : list Key :=
  let doaj_authors := default_list (art_doaj_authors article) in
  let doaj_id := art_doaj_id article in
  let plos_id := art_id article in
  match doaj_authors with
  | _ :: _ =>
      flat_map (fun author =>
                  if truthy_str (a_name author)
                  then [(a_name author, doaj_id, plos_id)] else [])
               doaj_authors
  | [] =>
      map (fun author => (Some author, doaj_id, plos_id))
          (default_list (art_author_display article))
  end.

(** The local [deps] list of [update_counters]; it is built but never
    folded into a counter. *)
Definition deps_keys (article : Article) : list Key :=
  let doaj_authors := default_list (art_doaj_authors article) in
  match doaj_authors with
  | _ :: _ =>
      flat_map (fun author =>
                  if truthy_str (a_affiliation author)
                  then [(a_affiliation author, art_doaj_id article, art_id article)]
                  else [])
               doaj_authors
  | [] => []
  end.

(** The local [journals] list of [update_counters]. *)
Definition journal_keys (article : Article) : list Key :=
  [(art_journal article, art_doaj_id article, art_id article)].

(** [update_counters(task)]: [self._authors.update(authors)],
    [self._departments.update(departments)] where the free name
    [departments] resolves to the module-level Counter, that is
    [self._departments] itself, and [self._journals.update(journals)]. *)
Definition update_counters (st : CounterState) (task : WorkItem) : CounterState :=
  let article := snd task in
  {| authors := count_elements (authors st) (author_keys article);
     journals := count_elements (journals st) (journal_keys article);
     departments := counter_update_self (departments st) |}.

(** Sequential folding of the aggregated work items. *)
Definition aggregate (st : CounterState) (tasks : list WorkItem) : CounterState :=
  fold_left update_counters tasks st.

(** ** save_csv and Counter.most_common *)

(** [most_common()] is [sorted(self.items(), key=itemgetter(1),
    reverse=True)]: a stable sort by count, descending. Any stable sort gives
    the same list; this is insertion sort, where an element goes in front of
    all elements of equal or smaller count. *)
Fixpoint insert_desc (x : Key * Z) (l : counter) : counter :=
  match l with
  | [] => [x]
  | y :: l' => if snd y <=? snd x then x :: y :: l' else y :: insert_desc x l'
  end.

Fixpoint most_common (c : counter) : counter :=
  match c with
  | [] => []
  | x :: c' => insert_desc x (most_common c')
  end.

(** A cell of a CSV row, as passed to [csv_fh.writerow]. *)
Inductive Cell := CNone | CStr (s : string) | CInt (n : Z).

Definition cell_of (o : option string) : Cell :=
  match o with Some s => CStr s | None => CNone end.

(** [list(k)] for a key triple. *)
Definition key_cells (k : Key) : list Cell :=
  match k with (a, b, c) => [cell_of a; cell_of b; cell_of c] end.

(** The rows written by [save_csv]: [list(k) + [v]] for each entry of
    [counter.most_common()]. *)
Definition save_csv (c : counter) : list (list Cell) :=
  map (fun kv => key_cells (fst kv) ++ [CInt (snd kv)]) (most_common c).

Definition art1 : Article :=
  {| art_id := Some "10.1371/a"%string; art_journal := Some "PLoS ONE"%string;
     art_author_display := Some ["X"%string]; art_doaj_id := Some "d1"%string;
     art_doaj_authors := Some [mkAuthor (Some "A"%string) (Some "Dept"%string)] |}.

Example ex_authors :
  authors (update_counters empty_counters (0, art1))
  = [((Some "A"%string, Some "d1"%string, Some "10.1371/a"%string), 1)].
Proof. reflexivity. Qed.

Example ex_sort :
  map snd (most_common [((None,None,None),1); ((Some "a"%string,None,None),3);
                        ((Some "b"%string,None,None),1)]) = [3; 1; 1].
Proof. reflexivity. Qed.

(** ** queue.Queue *)

(** A [queue.Queue]: its FIFO of items ([None] is the shutdown sentinel)
    and [unfinished_tasks], the counter behind [task_done] / [join]. *)
Record PyQueue := mkPyQueue {
  q_items : list (option WorkItem);
  q_unfinished : nat
}.

(** [put(item)]: append, [unfinished_tasks += 1]. *)
Definition q_put (q : PyQueue) (x : option WorkItem) : PyQueue :=
  {| q_items := q_items q ++ [x]; q_unfinished := S (q_unfinished q) |}.

(** [get()]: pop the front; [None] when the queue is empty (the caller
    would block). *)
Definition q_get (q : PyQueue) : option (option WorkItem * PyQueue) :=
  match q_items q with
  | [] => None
  | x :: rest => Some (x, {| q_items := rest; q_unfinished := q_unfinished q |})
  end.

(** [task_done()]: raises [ValueError] when no task is unfinished. *)
Definition q_task_done (q : PyQueue) : option PyQueue :=
  match q_unfinished q with
  | O => None
  | S n => Some {| q_items := q_items q; q_unfinished := n |}
  end.

(** ** DOAJValidator *)

(** An entry of the DOAJ ['results'] list: [doaj_article['id']] and
    [doaj_article['bibjson'].get('author')]. *)
Record DoajArticle := mkDoajArticle {
  d_id : string;
  d_author : option (list Author)
}.

(** The DOAJ HTTP response: status code and [response.json().get('results')]. *)
Record DoajResponse := mkDoajResponse {
  d_status : Z;
  d_results : option (list DoajArticle)
}.

(** The store shared by the validator threads: the [source] queue, the
    [sink] queue, and the log of [time.sleep] calls. *)
Record WState := mkWState {
  w_source : PyQueue;
  w_sink : PyQueue;
  w_slept : list Z
}.

(** [self._delay] *)
Definition doaj_delay : Z := 10.

(** The two assignments of [validate_and_link] on the matching article. *)
Definition link (article : Article) (doaj_article : DoajArticle) : Article :=
  {| art_id := art_id article;
     art_journal := art_journal article;
     art_author_display := art_author_display article;
     art_doaj_id := Some (d_id doaj_article);
     art_doaj_authors := Some (default_list (d_author doaj_article)) |}.

(** [validate_and_link(task)] with the DOAJ server answering [resp] to the
    request it makes (if it makes one). *)
Definition validate_and_link (st : WState) (task : WorkItem) (resp : DoajResponse)
  : WState :=
  let (article_id, article) := task in
  let doi := art_id article in
  if truthy_str doi then
    if d_status resp =? 200 then
      match d_results resp with
      | Some (doaj_article :: _) =>
          {| w_source := w_source st;
             w_sink := q_put (w_sink st) (Some (article_id, link article doaj_article));
             w_slept := w_slept st |}
      | _ => st
      end
    else if d_status resp =? 429 then
      {| w_source := q_put (w_source st) (Some task);
         w_sink := w_sink st;
         w_slept := w_slept st ++ [doaj_delay] |}
    else
      {| w_source := q_put (w_source st) (Some task);
         w_sink := w_sink st;
         w_slept := w_slept st |}
  else st.

Inductive IterResult :=
  | Exit (st : WState)       (* sentinel dequeued: [break] *)
  | Continue (st : WState)   (* one task processed *)
  | Blocked                  (* [get()] on an empty queue *)
  | TaskDoneError.           (* [task_done()] raised [ValueError] *)

(** One iteration of the [while True] loop of [DOAJValidator.run]. *)
Definition validator_iter (st : WState) (resp : DoajResponse) : IterResult :=
  match q_get (w_source st) with
  | None => Blocked
  | Some (None, src) =>
      Exit {| w_source := src; w_sink := w_sink st; w_slept := w_slept st |}
  | Some (Some task, src) =>
      let st1 := validate_and_link
                   {| w_source := src; w_sink := w_sink st; w_slept := w_slept st |}
                   task resp in
      match q_task_done (w_source st1) with
      | None => TaskDoneError
      | Some src' =>
          Continue {| w_source := src'; w_sink := w_sink st1; w_slept := w_slept st1 |}
      end
  end.

(** ** PLOSAPIReader *)

(** The PLOS HTTP response: status code and [response.json().get('response')]:
    [None] when that value is absent or falsy, otherwise [Some docs] with
    [docs = content.get('docs')]. *)
Record PlosResponse := mkPlosResponse {
  p_status : Z;
  p_content : option (option (list Article))
}.

(** Result of [__next__]: a returned list of docs, or [StopIteration]. *)
Inductive NextResult :=
  | Batch (docs : list Article)
  | Stop.

(** [PLOSAPIReader.__next__] with state [self._start]; the server answers
    [resp] to the request at [start]. Returns the result, the new [_start]
    and the offset that was requested. The [ratelimit] decorators only delay
    the call. *)
Definition reader_next (start : Z) (resp : PlosResponse) : NextResult * Z * Z :=
  if p_status resp =? 200 then
    let start' := start + 100 in
    match p_content resp with
    | None => (Stop, start', start)
    | Some (Some (d :: ds)) => (Batch (d :: ds), start', start)
    | Some _ => (Stop, start', start)
    end
  else (Batch [], start, start).

(** The driver's [for articles in reader:] loop, the server answering the
    successive requests with [resps]. Returns the batches received and
    whether the loop ended by [StopIteration]. *)
Fixpoint drive (start : Z) (resps : list PlosResponse) : list (list Article) * bool :=
  match resps with
  | [] => ([], false)
  | r :: rs =>
      match reader_next start r with
      | (Stop, _, _) => ([], true)
      | (Batch docs, start', _) =>
          let (bs, stopped) := drive start' rs in (docs :: bs, stopped)
      end
  end.

(** ** TestReader *)

(** [sample_json] (line 48-63), keeping the keys the pipeline reads. *)
Definition sample_json : Article :=
  {| art_id := Some "10.1371/journal.pone.0076005"%string;
     art_journal := Some "PLoS ONE"%string;
     art_author_display := Some ["Kolappan Chockalingam"; "Chandrasekaran Vedhachalam";
                                 "Subramani Rangasamy"; "Gomathi Sekar";
                                 "Srividya Adinarayanan"; "Soumya Swaminathan";
                                 "Pradeep Aravindan Menon"]%string;
     art_doaj_id := None;
     art_doaj_authors := None |}.

(** [TestReader.__next__] with state [self._start]: [[sample_json] * 200]
    while [_start < n], advancing by 100; [StopIteration] otherwise, without
    advancing. *)
Definition test_reader_next (n start : Z) : NextResult * Z :=
  if start <? n then (Batch (repeat sample_json 200), start + 100)
  else (Stop, start).

(** The driver's [for] loop over a [TestReader], for at most [fuel] calls. *)
Fixpoint test_drive (fuel : nat) (n start : Z) : list (list Article) * bool :=
  match fuel with
  | O => ([], false)
  | S f =>
      match test_reader_next n start with
      | (Stop, _) => ([], true)
      | (Batch docs, start') =>
          let (bs, stopped) := test_drive f n start' in (docs :: bs, stopped)
      end
  end.

(** ** The driver's enqueueing in [__main__] *)

(** [for idx, article in enumerate(articles): source.put((page + idx, article))] *)
Fixpoint number (base : Z) (articles : list Article) : list WorkItem :=
  match articles with
  | [] => []
  | a :: rest => (base, a) :: number (base + 1) rest
  end.

(** The work items the driver puts on [source] for the successive batches
    of the reader: an empty batch is skipped, a non-empty one is numbered
    from [page], and [page += 100] follows it. *)
Fixpoint enqueue_batches (page : Z) (batches : list (list Article)) : list WorkItem :=
  match batches with
  | [] => []
  | [] :: bs => enqueue_batches page bs
  | articles :: bs => number page articles ++ enqueue_batches (page + 100) bs
  end.

(** A batch is truthy when it is non-empty ([if articles:]). *)
Definition nonempty (b : list Article) : bool :=
  match b with [] => false | _ => true end.

(** Numbering of a list of batches, [page] advancing by 100 after each. *)
Fixpoint pages_from (page : Z) (batches : list (list Article)) : list WorkItem :=
  match batches with
  | [] => []
  | b :: bs => number page b ++ pages_from (page + 100) bs
  end.

(** ** Repeated iterations of the worker loops *)

(** [DOAJValidator.run]: successive iterations, the DOAJ server answering
    the [k]-th iteration's request with the [k]-th element of [resps]. *)
Fixpoint validator_run (st : WState) (resps : list DoajResponse) : IterResult :=
  match resps with
  | [] => Continue st
  | r :: rs =>
      match validator_iter st r with
      | Continue st' => validator_run st' rs
      | other => other
      end
  end.

(** The unfinished-task count of a queue that holds only work items, each
    put once and not yet marked done: it equals the number of items. *)
Definition queue_inv (q : PyQueue) : Prop :=
  q_unfinished q = List.length (q_items q) /\ Forall (fun x => x <> None) (q_items q).

(** The state of a [Counters] thread: the [sink] queue it reads and the
    three shared counters. *)
Record CState := mkCState {
  c_source : PyQueue;
  c_counts : CounterState
}.

Inductive CIterResult :=
  | CExit (st : CState)
  | CContinue (st : CState)
  | CBlocked
  | CTaskDoneError.

(** One iteration of the [while True] loop of [Counters.run]. *)
Definition counters_iter (st : CState) : CIterResult :=
  match q_get (c_source st) with
  | None => CBlocked
  | Some (None, src) => CExit {| c_source := src; c_counts := c_counts st |}
  | Some (Some task, src) =>
      let counts := update_counters (c_counts st) task in
      match q_task_done src with
      | None => CTaskDoneError
      | Some src' => CContinue {| c_source := src'; c_counts := counts |}
      end
  end.

(** [Counters.run] for at most [fuel] iterations. *)
Fixpoint counters_run (fuel : nat) (st : CState) : CIterResult :=
  match fuel with
  | O => CContinue st
  | S f =>
      match counters_iter st with
      | CContinue st' => counters_run f st'
      | other => other
      end
  end.

(** * Properties *)

Lemma app_single_neq {A} (l : list A) (x : A) : l ++ [x] <> l.
Proof.
  intro H. apply (f_equal (@List.length A)) in H.
  rewrite length_app in H. simpl in H. lia.
Qed.

(** Unfold one validator iteration on a source queue whose head is a task. *)
Ltac run_iter Hsrc :=
  unfold validator_iter, q_get; rewrite Hsrc; cbn [snd fst];
  unfold validate_and_link.

(** C3: a throttled (429) DOAJ answer puts the very same work item back at
    the end of the input queue, sleeps [self._delay] seconds, and marks the
    current dequeue done, so the unfinished-task count is unchanged. *)
Theorem validator_throttle_requeue :
  forall st aid article rest resp,
    q_items (w_source st) = Some (aid, article) :: rest ->
    truthy_str (art_id article) = true ->
    d_status resp = 429 ->
    validator_iter st resp =
    Continue {| w_source := {| q_items := rest ++ [Some (aid, article)];
                               q_unfinished := q_unfinished (w_source st) |};
                w_sink := w_sink st;
                w_slept := w_slept st ++ [doaj_delay] |}.
Proof.
  intros st aid article rest resp Hsrc Hdoi H429.
  run_iter Hsrc. rewrite Hdoi, H429. reflexivity.
Qed.

Definition art_nodoaj : Article :=
  {| art_id := Some "10.1371/b"%string; art_journal := None;
     art_author_display := Some ["X"%string]; art_doaj_id := None;
     art_doaj_authors := None |}.

Definition st0 : WState :=
  {| w_source := {| q_items := [Some (0, art_nodoaj)]; q_unfinished := 1 |};
     w_sink := {| q_items := []; q_unfinished := 0 |};
     w_slept := [] |}.

Lemma validator_throttle_requeue_witness :
  validator_iter st0 (mkDoajResponse 429 None) =
  Continue {| w_source := {| q_items := [Some (0, art_nodoaj)]; q_unfinished := 1 |};
              w_sink := w_sink st0; w_slept := [doaj_delay] |}.
Proof.
  exact (validator_throttle_requeue st0 0 art_nodoaj [] (mkDoajResponse 429 None)
           eq_refl eq_refl eq_refl).
Defined.

(** C8: one iteration of the validator on a dequeued work item has exactly
    one of three effects: it forwards one item to the sink and does not
    re-enqueue, or it re-enqueues the item and leaves the sink untouched, or
    it drops the item (neither queue receives anything). *)
Theorem validator_outcomes_exclusive :
  forall st task rest resp st',
    q_items (w_source st) = Some task :: rest ->
    validator_iter st resp = Continue st' ->
    (exists x, q_items (w_sink st') = q_items (w_sink st) ++ [Some x] /\
               q_items (w_source st') = rest) \/
    (w_sink st' = w_sink st /\ q_items (w_source st') = rest ++ [Some task]) \/
    (w_sink st' = w_sink st /\ q_items (w_source st') = rest).
Proof.
  intros st [aid article] rest resp st' Hsrc Hit. revert Hit.
  run_iter Hsrc.
  destruct (truthy_str (art_id article)); cbn.
  - destruct (d_status resp =? 200).
    + destruct (d_results resp) as [[|d ds]|]; cbn;
        destruct (q_unfinished (w_source st)); intro Hit; inversion Hit; subst; cbn.
      * right; right. auto.
      * left. eexists. split; reflexivity.
      * right; right. auto.
    + destruct (d_status resp =? 429); cbn; intro Hit; inversion Hit; subst; cbn;
        right; left; auto.
  - destruct (q_unfinished (w_source st)); intro Hit; inversion Hit; subst; cbn.
    right; right; auto.
Qed.

Definition doaj_match : DoajResponse :=
  mkDoajResponse 200 (Some [mkDoajArticle "d2"
                              (Some [mkAuthor (Some "A"%string) (Some "Dept"%string)])]).

Lemma validator_outcomes_exclusive_witness :
  exists st',
    validator_iter st0 doaj_match = Continue st' /\
    ((exists x, q_items (w_sink st') = q_items (w_sink st0) ++ [Some x] /\
                q_items (w_source st') = []) \/
     (w_sink st' = w_sink st0 /\ q_items (w_source st') = [] ++ [Some (0, art_nodoaj)]) \/
     (w_sink st' = w_sink st0 /\ q_items (w_source st') = [])).
Proof.
  eexists. split.
  - reflexivity.
  - exact (validator_outcomes_exclusive st0 (0, art_nodoaj) [] doaj_match _
             eq_refl eq_refl).
Defined.

(** C10: whatever a validator iteration appends to the sink is the pair
    [(article_id, article)] of the dequeued work item, with the article
    extended by ['doaj_id'] and ['doaj_authors'] (possibly empty) taken from
    the first entry of the DOAJ ['results'] and its other keys unchanged. *)
Theorem validator_forward_shape :
  forall st aid article rest resp st' x,
    q_items (w_source st) = Some (aid, article) :: rest ->
    validator_iter st resp = Continue st' ->
    q_items (w_sink st') = q_items (w_sink st) ++ [x] ->
    exists doaj_article more article',
      d_status resp = 200 /\
      d_results resp = Some (doaj_article :: more) /\
      x = Some (aid, article') /\
      art_doaj_id article' = Some (d_id doaj_article) /\
      art_doaj_authors article' = Some (default_list (d_author doaj_article)) /\
      art_id article' = art_id article /\
      art_journal article' = art_journal article /\
      art_author_display article' = art_author_display article.
Proof.
  intros st aid article rest resp st' x Hsrc Hit Hsink. revert Hit.
  run_iter Hsrc.
  destruct (truthy_str (art_id article)) eqn:Hdoi; cbn.
  - destruct (d_status resp =? 200) eqn:H200.
    + destruct (d_results resp) as [[|d ds]|] eqn:Hres; cbn;
        destruct (q_unfinished (w_source st)); intro Hit; inversion Hit; subst; cbn in Hsink;
        try (exfalso; exact (app_single_neq _ _ (eq_sym Hsink))).
      apply app_inv_head in Hsink. inversion Hsink; subst.
      exists d, ds, (link article d). apply Z.eqb_eq in H200.
      repeat split; auto.
    + destruct (d_status resp =? 429); cbn;
        destruct (q_unfinished _); intro Hit; inversion Hit; subst; cbn in Hsink;
        exfalso; exact (app_single_neq _ _ (eq_sym Hsink)).
  - destruct (q_unfinished (w_source st)); intro Hit; inversion Hit; subst; cbn in Hsink;
      exfalso; exact (app_single_neq _ _ (eq_sym Hsink)).
Qed.

Lemma validator_forward_shape_witness :
  exists st' x doaj_article more article',
    validator_iter st0 doaj_match = Continue st' /\
    q_items (w_sink st') = q_items (w_sink st0) ++ [x] /\
    d_status doaj_match = 200 /\
    d_results doaj_match = Some (doaj_article :: more) /\
    x = Some (0, article') /\
    art_doaj_id article' = Some (d_id doaj_article) /\
    art_doaj_authors article' = Some (default_list (d_author doaj_article)) /\
    art_id article' = art_id art_nodoaj /\
    art_journal article' = art_journal art_nodoaj /\
    art_author_display article' = art_author_display art_nodoaj.
Proof.
  destruct (validator_forward_shape st0 0 art_nodoaj [] doaj_match
              {| w_source := {| q_items := []; q_unfinished := 0 |};
                 w_sink := {| q_items := [Some (0, link art_nodoaj (mkDoajArticle "d2"
                              (Some [mkAuthor (Some "A"%string) (Some "Dept"%string)])))];
                              q_unfinished := 1 |};
                 w_slept := [] |}
              (Some (0, link art_nodoaj (mkDoajArticle "d2"
                              (Some [mkAuthor (Some "A"%string) (Some "Dept"%string)]))))
              eq_refl eq_refl eq_refl)
    as (d & more & a' & H1 & H2 & H3 & H4 & H5 & H6 & H7 & H8).
  exists {| w_source := {| q_items := []; q_unfinished := 0 |};
            w_sink := {| q_items := [Some (0, link art_nodoaj (mkDoajArticle "d2"
                         (Some [mkAuthor (Some "A"%string) (Some "Dept"%string)])))];
                         q_unfinished := 1 |};
            w_slept := [] |}.
  eexists. exists d, more, a'.
  split; [reflexivity|]. split; [reflexivity|].
  repeat split; assumption.
Defined.

(** ** Counter lemmas *)

Lemma opt_eqb_eq (a b : option string) : opt_eqb a b = true <-> a = b.
Proof.
  destruct a as [x|], b as [y|]; cbn; split; intro H; try discriminate; auto.
  - apply String.eqb_eq in H. subst. reflexivity.
  - inversion H. apply String.eqb_refl.
Qed.

Lemma key_eqb_eq (k1 k2 : Key) : key_eqb k1 k2 = true <-> k1 = k2.
Proof.
  destruct k1 as [[a1 b1] c1], k2 as [[a2 b2] c2]; cbn.
  rewrite !andb_true_iff, !opt_eqb_eq. split.
  - intros [[-> ->] ->]. reflexivity.
  - intro H. inversion H. auto.
Qed.

Lemma key_eqb_sym (k1 k2 : Key) : key_eqb k1 k2 = key_eqb k2 k1.
Proof.
  destruct (key_eqb k1 k2) eqn:E1, (key_eqb k2 k1) eqn:E2; auto.
  - apply key_eqb_eq in E1. subst. rewrite <- E2. symmetry. apply key_eqb_eq. reflexivity.
  - apply key_eqb_eq in E2. subst. rewrite <- E1. apply key_eqb_eq. reflexivity.
Qed.

Lemma cget_cset (c : counter) (k k' : Key) (v : Z) :
  cget (cset c k v) k' = if key_eqb k' k then v else cget c k'.
Proof.
  induction c as [|[k0 v0] c IH]; cbn.
  - rewrite key_eqb_sym. destruct (key_eqb k k'); reflexivity.
  - destruct (key_eqb k k0) eqn:E; cbn.
    + apply key_eqb_eq in E. subst.
      destruct (key_eqb k' k0); reflexivity.
    + rewrite IH.
      destruct (key_eqb k' k) eqn:E1; [|reflexivity].
      apply key_eqb_eq in E1. subst. rewrite E. reflexivity.
Qed.

(** Number of occurrences of a key in a key list. *)
Fixpoint count_key (k : Key) (l : list Key) : Z :=
  match l with
  | [] => 0
  | e :: l' => (if key_eqb k e then 1 else 0) + count_key k l'
  end.

Lemma cget_count_elements (c : counter) (l : list Key) (k : Key) :
  cget (count_elements c l) k = cget c k + count_key k l.
Proof.
  revert c. induction l as [|e l IH]; intro c; cbn.
  - lia.
  - rewrite IH, cget_cset. destruct (key_eqb k e) eqn:E.
    + apply key_eqb_eq in E. subst. lia.
    + lia.
Qed.

Fixpoint sumZ (l : list Z) : Z :=
  match l with [] => 0 | x :: l' => x + sumZ l' end.

Lemma sumZ_perm (l l' : list Z) : Permutation l l' -> sumZ l = sumZ l'.
Proof. induction 1; cbn; lia. Qed.

Lemma aggregate_authors (st : CounterState) (tasks : list WorkItem) (k : Key) :
  cget (authors (aggregate st tasks)) k =
  cget (authors st) k + sumZ (map (fun t => count_key k (author_keys (snd t))) tasks).
Proof.
  unfold aggregate. revert st. induction tasks as [|t ts IH]; intro st; cbn [fold_left map sumZ].
  - lia.
  - rewrite IH. change (authors (update_counters st t))
      with (count_elements (authors st) (author_keys (snd t))).
    rewrite cget_count_elements. lia.
Qed.

Lemma aggregate_journals (st : CounterState) (tasks : list WorkItem) (k : Key) :
  cget (journals (aggregate st tasks)) k =
  cget (journals st) k + sumZ (map (fun t => count_key k (journal_keys (snd t))) tasks).
Proof.
  unfold aggregate. revert st. induction tasks as [|t ts IH]; intro st; cbn [fold_left map sumZ].
  - lia.
  - rewrite IH. change (journals (update_counters st t))
      with (count_elements (journals st) (journal_keys (snd t))).
    rewrite cget_count_elements. lia.
Qed.

(** The department counter starts empty in [__main__] and folding it into
    itself keeps it empty. *)
Lemma aggregate_departments_empty (st : CounterState) (tasks : list WorkItem) :
  departments st = [] -> departments (aggregate st tasks) = [].
Proof.
  unfold aggregate. revert st. induction tasks as [|t ts IH]; intros st Hd; cbn.
  - exact Hd.
  - apply IH. unfold update_counters; cbn. rewrite Hd. reflexivity.
Qed.

(** ** Sorting lemmas for [most_common] *)

Definition desc (a b : Key * Z) : Prop := snd b <= snd a.

Lemma insert_desc_hdrel (y x : Key * Z) (l : counter) :
  HdRel desc y l -> desc y x -> HdRel desc y (insert_desc x l).
Proof.
  intros Hh Hyx. destruct l as [|z l]; cbn.
  - constructor. exact Hyx.
  - destruct (snd z <=? snd x); constructor; [exact Hyx|].
    inversion Hh. assumption.
Qed.

Lemma insert_desc_sorted (x : Key * Z) (l : counter) :
  Sorted desc l -> Sorted desc (insert_desc x l).
Proof.
  induction l as [|y l IH]; intro Hs; cbn.
  - repeat constructor.
  - destruct (snd y <=? snd x) eqn:E.
    + constructor; [exact Hs|]. constructor. unfold desc. lia.
    + apply Sorted_inv in Hs as [Hs Hh]. constructor.
      * apply IH, Hs.
      * apply insert_desc_hdrel; [exact Hh|]. unfold desc. lia.
Qed.

Lemma insert_desc_perm (x : Key * Z) (l : counter) :
  Permutation (insert_desc x l) (x :: l).
Proof.
  induction l as [|y l IH]; cbn; [reflexivity|].
  destruct (snd y <=? snd x); [reflexivity|].
  rewrite IH. apply perm_swap.
Qed.

Definition has_count (n : Z) (kv : Key * Z) : bool := snd kv =? n.

Lemma insert_desc_filter (n : Z) (x : Key * Z) (l : counter) :
  List.filter (has_count n) (insert_desc x l) = List.filter (has_count n) (x :: l).
Proof.
  induction l as [|y l IH]; cbn; [reflexivity|].
  destruct (snd y <=? snd x) eqn:E; [reflexivity|].
  cbn. rewrite IH. cbn. unfold has_count.
  destruct (snd x =? n) eqn:Ex, (snd y =? n) eqn:Ey; try reflexivity.
  apply Z.eqb_eq in Ex, Ey. lia.
Qed.

Lemma most_common_sorted (c : counter) : Sorted desc (most_common c).
Proof. induction c; cbn; [constructor | apply insert_desc_sorted; assumption]. Qed.

Lemma most_common_perm (c : counter) : Permutation (most_common c) c.
Proof.
  induction c as [|x c IH]; cbn; [reflexivity|].
  rewrite insert_desc_perm. apply perm_skip, IH.
Qed.

Lemma most_common_filter (n : Z) (c : counter) :
  List.filter (has_count n) (most_common c) = List.filter (has_count n) c.
Proof.
  induction c as [|x c IH]; cbn; [reflexivity|].
  rewrite insert_desc_filter. cbn. rewrite IH. reflexivity.
Qed.

(** ** Positivity of counts *)






(** ** Aggregation and report claims *)

(** An enriched article without a journal name. *)
Definition art_nojournal : Article :=
  link art_nodoaj (mkDoajArticle "d2"
                     (Some [mkAuthor (Some "A"%string) (Some "Dept"%string)])).

(** C1 (code defect): [update_counters] builds the affiliation list [deps]
    but folds the module-level [departments] Counter into itself instead,
    so the department counter stays empty after any aggregation, even for
    an enriched article whose author has the affiliation "Dept". *)
Theorem departments_never_counted :
  (forall tasks, departments (aggregate empty_counters tasks) = []) /\
  deps_keys art1 = [(Some "Dept"%string, Some "d1"%string, Some "10.1371/a"%string)] /\
  cget (departments (aggregate empty_counters [(0, art1)]))
       (Some "Dept"%string, Some "d1"%string, Some "10.1371/a"%string) = 0.
Proof.
  split; [|split; reflexivity].
  intro tasks. apply aggregate_departments_empty. reflexivity.
Qed.

(** C9: for a fixed multiset of work items, the final author, journal and
    department counters do not depend on the order in which the items are
    folded in (counters compared as Python compares them, key by key). *)
Theorem aggregate_order_invariant :
  forall tasks tasks',
    Permutation tasks tasks' ->
    (forall k, cget (authors (aggregate empty_counters tasks)) k =
               cget (authors (aggregate empty_counters tasks')) k) /\
    (forall k, cget (journals (aggregate empty_counters tasks)) k =
               cget (journals (aggregate empty_counters tasks')) k) /\
    departments (aggregate empty_counters tasks) =
    departments (aggregate empty_counters tasks').
Proof.
  intros tasks tasks' Hp. split; [|split].
  - intro k. rewrite !aggregate_authors. f_equal.
    apply sumZ_perm, Permutation_map, Hp.
  - intro k. rewrite !aggregate_journals. f_equal.
    apply sumZ_perm, Permutation_map, Hp.
  - rewrite !aggregate_departments_empty; reflexivity.
Qed.

Lemma aggregate_order_invariant_witness :
  Permutation [(0, art1); (1, art_nojournal)] [(1, art_nojournal); (0, art1)] /\
  cget (authors (aggregate empty_counters [(0, art1); (1, art_nojournal)]))
       (Some "A"%string, Some "d1"%string, Some "10.1371/a"%string) =
  cget (authors (aggregate empty_counters [(1, art_nojournal); (0, art1)]))
       (Some "A"%string, Some "d1"%string, Some "10.1371/a"%string).
Proof.
  assert (Hp : Permutation [(0, art1); (1, art_nojournal)]
                           [(1, art_nojournal); (0, art1)]) by apply perm_swap.
  split; [exact Hp|].
  exact (proj1 (aggregate_order_invariant _ _ Hp) _).
Defined.

(** C6 (code defect): an aggregated article with no journal name still
    yields a one-element journal key list, whose key [(None, doaj_id, id)]
    is counted: unlike the author names and affiliations of the same
    function, the journal value is not checked for truthiness. *)
Lemma journal_keys_absent_counterexample :
  art_journal art_nojournal = None /\
  journal_keys art_nojournal = [(None, Some "d2"%string, Some "10.1371/b"%string)] /\
  cget (journals (aggregate empty_counters [(0, art_nojournal)]))
       (None, Some "d2"%string, Some "10.1371/b"%string) = 1.
Proof. repeat split; reflexivity. Qed.

(** C5 (code defect): the journal report of an article without a journal
    name contains the row of the key whose journal is missing, because
    [update_counters] folds the journal value without the truthiness check
    it applies to author names and affiliations (same defect as C6). *)
Lemma save_csv_missing_key_counterexample :
  save_csv (journals (aggregate empty_counters [(0, art_nojournal)])) =
  [[CNone; CStr "d2"; CStr "10.1371/b"; CInt 1]].
Proof. reflexivity. Qed.

(** [most_common] lists the entries of a counter exactly once each, sorted
    by count descending, entries of equal count in insertion order, and
    [save_csv] writes one row per entry. *)
Theorem most_common_order :
  forall c : counter,
    Sorted desc (most_common c) /\
    Permutation (most_common c) c /\
    (forall n, List.filter (has_count n) (most_common c) = List.filter (has_count n) c) /\
    List.length (save_csv c) = List.length c.
Proof.
  intro c. split; [apply most_common_sorted|]. split; [apply most_common_perm|].
  split; [intro n; apply most_common_filter|].
  unfold save_csv. rewrite length_map. apply Permutation_length, most_common_perm.
Qed.



(** ** Reader claims *)

(** C2 counterexample: on a 429 answer, [__next__] makes one request and
    returns an empty batch; it does not wait and retry before returning. *)
Lemma reader_throttle_counterexample :
  reader_next 0 (mkPlosResponse 429 None) = (Batch [], 0, 0).
Proof. reflexivity. Qed.

(** C2 (amended): on any status other than 200, 429 included, [__next__]
    returns an empty batch after a single request at the current offset and
    leaves the offset unchanged, so the next call requests the same offset;
    in the driver's loop the empty batch is received and the loop goes on
    from the same offset. *)
Theorem reader_non200_same_cursor :
  forall start resp rs,
    p_status resp <> 200 ->
    reader_next start resp = (Batch [], start, start) /\
    drive start (resp :: rs) =
    (let (bs, stopped) := drive start rs in ([] :: bs, stopped)).
Proof.
  intros start resp rs Hs.
  assert (H : reader_next start resp = (Batch [], start, start)).
  { unfold reader_next. apply Z.eqb_neq in Hs. rewrite Hs. reflexivity. }
  split; [exact H|]. cbn. rewrite H. reflexivity.
Qed.

Lemma reader_non200_same_cursor_witness :
  p_status (mkPlosResponse 429 None) <> 200 /\
  reader_next 0 (mkPlosResponse 429 None) = (Batch [], 0, 0).
Proof.
  assert (H : p_status (mkPlosResponse 429 None) <> 200) by (cbn; lia).
  split; [exact H|].
  exact (proj1 (reader_non200_same_cursor 0 _ [] H)).
Defined.

(** C4 counterexample: after [StopIteration] at offset 0 the reader's offset
    is 100, and a further call returns the docs the server sends there. *)
Lemma reader_after_stop_counterexample :
  reader_next 0 (mkPlosResponse 200 None) = (Stop, 100, 0) /\
  reader_next 100 (mkPlosResponse 200 (Some (Some [art1]))) = (Batch [art1], 200, 100).
Proof. split; reflexivity. Qed.

(** The driver's [for] loop stops at the first [StopIteration]: once it
    has stopped, answers to further requests change nothing it received. *)
Lemma drive_stops_for_good :
  forall start rs rs',
    snd (drive start rs) = true ->
    drive start (rs ++ rs') = drive start rs.
Proof.
  intros start rs. revert start.
  induction rs as [|r rs IH]; intros start rs' Hst; cbn in *; [discriminate|].
  destruct (reader_next start r) as [[[docs|] start'] req]; [|reflexivity].
  destruct (drive start' rs) as [bs stopped] eqn:E. cbn in Hst.
  rewrite IH; [rewrite E; reflexivity|]. rewrite E. exact Hst.
Qed.

(** C4 (amended): the reader keeps no termination flag. When [__next__]
    raises [StopIteration] its offset has already advanced by 100; a later
    call requests that new offset and returns the docs of a 200 answer that
    has docs. Termination is permanent only for the driver's [for] loop,
    which stops at the first [StopIteration] whatever later answers are. *)
Theorem reader_stop_not_permanent :
  forall start resp,
    fst (fst (reader_next start resp)) = Stop ->
    snd (fst (reader_next start resp)) = start + 100 /\
    (forall resp',
       snd (reader_next (start + 100) resp') = start + 100 /\
       (p_status resp' = 200 -> forall d ds, p_content resp' = Some (Some (d :: ds)) ->
        fst (fst (reader_next (start + 100) resp')) = Batch (d :: ds))) /\
    (forall rs rs', drive start (resp :: rs ++ rs') = ([], true)).
Proof.
  intros start resp Hstop.
  assert (Hst : exists s' req, reader_next start resp = (Stop, s', req) /\ s' = start + 100).
  { unfold reader_next in *. destruct (p_status resp =? 200); [|discriminate].
    destruct (p_content resp) as [[[|d ds]|]|]; cbn in *; eauto; discriminate. }
  destruct Hst as (s' & req & Hr & ->).
  split; [rewrite Hr; reflexivity|]. split.
  - intro resp'. unfold reader_next.
    destruct (p_status resp' =? 200) eqn:E.
    + split; [destruct (p_content resp') as [[[|d ds]|]|]; reflexivity|].
      intros _ d ds Hc. rewrite Hc. reflexivity.
    + split; [reflexivity|]. intro H2. apply Z.eqb_neq in E. contradiction.
  - intros rs rs'. cbn [drive app]. rewrite Hr. reflexivity.
Qed.

Lemma reader_stop_not_permanent_witness :
  fst (fst (reader_next 0 (mkPlosResponse 200 None))) = Stop /\
  drive 0 (mkPlosResponse 200 None :: [] ++ [mkPlosResponse 200 (Some (Some [art1]))]) =
  ([], true).
Proof.
  assert (H : fst (fst (reader_next 0 (mkPlosResponse 200 None))) = Stop) by reflexivity.
  split; [exact H|].
  exact (proj2 (proj2 (reader_stop_not_permanent 0 _ H)) [] _).
Defined.

(** ** TestReader and the driver's numbering *)

Lemma test_drive_S (f : nat) (n start : Z) :
  test_drive (S f) n start =
  match test_reader_next n start with
  | (Stop, _) => ([], true)
  | (Batch docs, start') =>
      let (bs, stopped) := test_drive f n start' in (docs :: bs, stopped)
  end.
Proof. reflexivity. Qed.

Lemma test_drive_count (n : Z) (k : nat) (start : Z) :
  n - start <= 100 * Z.of_nat k < n - start + 100 ->
  test_drive (S k) n start = (repeat (repeat sample_json 200) k, true).
Proof.
  revert start. induction k as [|k IH]; intros start Hk; rewrite test_drive_S.
  - unfold test_reader_next. replace (start <? n) with false by (symmetry; apply Z.ltb_ge; lia).
    reflexivity.
  - unfold test_reader_next. replace (start <? n) with true by (symmetry; apply Z.ltb_lt; lia).
    rewrite IH by lia. reflexivity.
Qed.

(** [TestReader(n)], driven from offset 0, yields exactly [k = ceil(n/100)]
    batches of 200 copies of [sample_json] and then stops. *)
Theorem test_reader_batches :
  forall (n : Z) (k : nat),
    n <= 100 * Z.of_nat k < n + 100 ->
    test_drive (S k) n 0 = (repeat (repeat sample_json 200) k, true).
Proof. intros n k Hk. apply test_drive_count. lia. Qed.

Lemma test_reader_batches_witness :
  250 <= 100 * Z.of_nat 3 < 250 + 100 /\
  test_drive 4 250 0 = (repeat (repeat sample_json 200) 3, true).
Proof.
  assert (H : 250 <= 100 * Z.of_nat 3 < 250 + 100) by (cbn; lia).
  split; [exact H|]. exact (test_reader_batches 250 3 H).
Defined.

(** Once [TestReader.__next__] has raised [StopIteration] it keeps
    [_start] as it was, so every later call raises it again at that same
    offset. *)
Theorem test_reader_stop_permanent :
  forall n start,
    fst (test_reader_next n start) = Stop ->
    forall j : nat,
      test_reader_next n (Nat.iter j (fun s => snd (test_reader_next n s)) start) =
      (Stop, start).
Proof.
  intros n start Hs.
  assert (Hr : test_reader_next n start = (Stop, start)).
  { unfold test_reader_next in *. destruct (start <? n); [discriminate|reflexivity]. }
  assert (Hit : forall j : nat, Nat.iter j (fun s => snd (test_reader_next n s)) start = start).
  { induction j as [|j IH]; [reflexivity|]. rewrite Nat.iter_succ, IH, Hr. reflexivity. }
  intro j. rewrite Hit. exact Hr.
Qed.

Lemma test_reader_stop_permanent_witness :
  fst (test_reader_next 100 100) = Stop /\
  test_reader_next 100 (Nat.iter 3 (fun s => snd (test_reader_next 100 s)) 100) = (Stop, 100).
Proof.
  assert (H : fst (test_reader_next 100 100) = Stop) by reflexivity.
  split; [exact H|]. exact (test_reader_stop_permanent 100 100 H 3).
Defined.

Lemma number_snd (base : Z) (l : list Article) : map snd (number base l) = l.
Proof. revert base; induction l; intro base; cbn; [|rewrite IHl]; reflexivity. Qed.

Lemma number_bounds (base : Z) (l : list Article) :
  Forall (fun p => base <= p < base + Z.of_nat (List.length l)) (map fst (number base l)).
Proof.
  revert base; induction l as [|a l IH]; intro base; cbn; constructor.
  - lia.
  - eapply Forall_impl; [|apply IH]. cbn. intros p Hp. lia.
Qed.

Lemma number_sorted (base : Z) (l : list Article) :
  StronglySorted Z.lt (map fst (number base l)).
Proof.
  revert base; induction l as [|a l IH]; intro base; cbn; constructor.
  - apply IH.
  - eapply Forall_impl; [|apply number_bounds]. cbn. intros p Hp. lia.
Qed.

Lemma strongly_sorted_app {A} (R : A -> A -> Prop) (l1 l2 : list A) :
  StronglySorted R l1 -> StronglySorted R l2 ->
  Forall (fun x => Forall (R x) l2) l1 -> StronglySorted R (l1 ++ l2).
Proof.
  induction 1 as [|a l1 H1 IH Ha]; intros H2 Hall; cbn; [exact H2|].
  inversion Hall as [|? ? Hal2 Hall']; subst. constructor.
  - apply IH; assumption.
  - apply Forall_app. split; assumption.
Qed.

Lemma enqueue_batches_lower (page : Z) (bs : list (list Article)) :
  Forall (fun p => page <= p) (map fst (enqueue_batches page bs)).
Proof.
  revert page. induction bs as [|[|a l] bs IH]; intro page; cbn [enqueue_batches];
    [constructor|apply IH|].
  rewrite map_app. apply Forall_app. split.
  - eapply Forall_impl; [|apply (number_bounds page (a :: l))]. cbn. intros p Hp. lia.
  - eapply Forall_impl; [|apply IH]. cbn. intros p Hp. lia.
Qed.

Lemma enqueue_pages (page : Z) (bs : list (list Article)) :
  enqueue_batches page bs = pages_from page (List.filter nonempty bs).
Proof.
  revert page. induction bs as [|[|a l] bs IH]; intro page; cbn; [reflexivity|apply IH|].
  rewrite IH. reflexivity.
Qed.

Lemma number_nth (base : Z) (l : list Article) (i : nat) (a : Article) :
  nth_error l i = Some a -> nth_error (number base l) i = Some (base + Z.of_nat i, a).
Proof.
  revert base i. induction l as [|x l IH]; intros base i H; destruct i as [|i]; cbn in *;
    try discriminate.
  - inversion H. f_equal. f_equal. lia.
  - rewrite (IH (base + 1) i H). f_equal. f_equal. lia.
Qed.

Lemma pages_from_in (page : Z) (bs : list (list Article)) (j i : nat)
      (b : list Article) (a : Article) :
  nth_error bs j = Some b -> nth_error b i = Some a ->
  In (page + 100 * Z.of_nat j + Z.of_nat i, a) (pages_from page bs).
Proof.
  revert page j. induction bs as [|b' bs IH]; intros page j Hj Hi;
    destruct j as [|j]; cbn in Hj; try discriminate; cbn [pages_from]; apply in_or_app.
  - inversion Hj; subst. left. apply nth_error_In with (n := i).
    rewrite (number_nth page b i a Hi).
    replace (page + 100 * Z.of_nat 0 + Z.of_nat i) with (page + Z.of_nat i) by lia.
    reflexivity.
  - right. replace (page + 100 * Z.of_nat (S j) + Z.of_nat i)
      with (page + 100 + 100 * Z.of_nat j + Z.of_nat i) by lia.
    apply IH; assumption.
Qed.

(** When no batch has more than 100 articles (the PLOS page size), the
    driver enqueues every fetched article exactly once, in fetch order, with
    strictly increasing sequence positions; the [idx]-th article of the
    [j]-th non-empty batch gets position [page + 100 * j + idx], empty
    batches leaving [page] unchanged. *)
Theorem enqueue_positions_increasing :
  forall page bs,
    Forall (fun b => (List.length b <= 100)%nat) bs ->
    map snd (enqueue_batches page bs) = List.concat bs /\
    StronglySorted Z.lt (map fst (enqueue_batches page bs)) /\
    (forall j i b a,
       nth_error (List.filter nonempty bs) j = Some b -> nth_error b i = Some a ->
       In (page + 100 * Z.of_nat j + Z.of_nat i, a) (enqueue_batches page bs)).
Proof.
  intros page bs Hlen.
  enough (H : map snd (enqueue_batches page bs) = List.concat bs /\
              StronglySorted Z.lt (map fst (enqueue_batches page bs))).
  { split; [exact (proj1 H)|]. split; [exact (proj2 H)|].
    intros j i b a Hj Hi. rewrite enqueue_pages. apply (pages_from_in _ _ _ _ b); assumption. }
  revert page.
  induction bs as [|b bs IH]; intro page; cbn [enqueue_batches List.concat];
    [split; constructor|].
  inversion Hlen as [|? ? Hb Hbs]; subst.
  destruct b as [|a l]; cbn [enqueue_batches List.concat app]; [apply IH; assumption|].
  rewrite !map_app, number_snd. destruct (IH Hbs (page + 100)) as [Hs Hsort].
  split; [cbn [app]; f_equal; f_equal; exact Hs|].
  apply strongly_sorted_app; [apply number_sorted|exact Hsort|].
  eapply Forall_impl; [|apply (number_bounds page (a :: l))].
  intros p Hp. eapply Forall_impl; [|apply (enqueue_batches_lower (page + 100) bs)].
  cbv beta in Hp |- *. intros q Hq. lia.
Qed.

Lemma enqueue_positions_increasing_witness :
  Forall (fun b => (List.length b <= 100)%nat) [[art1; art1]; []; [art_nodoaj]] /\
  StronglySorted Z.lt (map fst (enqueue_batches 0 [[art1; art1]; []; [art_nodoaj]])).
Proof.
  assert (H : Forall (fun b => (List.length b <= 100)%nat) [[art1; art1]; []; [art_nodoaj]])
    by (repeat constructor; cbn; lia).
  split; [exact H|]. exact (proj1 (proj2 (enqueue_positions_increasing 0 _ H))).
Defined.

Lemma number_in (base : Z) (l : list Article) (i : nat) :
  (i < List.length l)%nat -> In (base + Z.of_nat i) (map fst (number base l)).
Proof.
  revert base i. induction l as [|a l IH]; intros base i Hi; cbn in Hi; [lia|].
  destruct i as [|i]; cbn [number map fst].
  - left. lia.
  - right. replace (base + Z.of_nat (S i)) with (base + 1 + Z.of_nat i) by lia.
    apply IH. lia.
Qed.

Lemma nodup_app_disjoint {A} (l1 l2 : list A) (x : A) :
  NoDup (l1 ++ l2) -> In x l1 -> In x l2 -> False.
Proof.
  induction l1 as [|a l1 IH]; intros Hnd H1 H2; [destruct H1|].
  inversion Hnd as [|? ? Hna Hnd']; subst.
  destruct H1 as [->|H1].
  - apply Hna, in_or_app. right. exact H2.
  - exact (IH Hnd' H1 H2).
Qed.

Lemma enqueue_batches_cons (page : Z) (b : list Article) (bs : list (list Article)) :
  b <> [] -> enqueue_batches page (b :: bs) = number page b ++ enqueue_batches (page + 100) bs.
Proof. destruct b; [contradiction|reflexivity]. Qed.

(** With [TestReader(n)] for [n > 100], whose batches hold 200 articles but
    advance the driver's [page] by only 100, two enqueued work items share a
    sequence position. *)
Theorem test_reader_positions_collide :
  forall (n : Z) (k : nat),
    n <= 100 * Z.of_nat k < n + 100 -> 100 < n ->
    ~ NoDup (map fst (enqueue_batches 0 (fst (test_drive (S k) n 0)))).
Proof.
  intros n k Hk Hn Hnd.
  rewrite (test_drive_count n k 0) in Hnd by lia. cbn [fst] in Hnd.
  destruct k as [|[|k]]; [lia|lia|].
  cbn [repeat] in Hnd.
  set (b := repeat sample_json 200) in Hnd.
  assert (Hb : List.length b = 200%nat) by apply repeat_length.
  assert (Hne : b <> []) by (intro E; rewrite E in Hb; discriminate).
  rewrite !(enqueue_batches_cons _ b _ Hne), !map_app in Hnd.
  apply (nodup_app_disjoint _ _ 100 Hnd).
  - apply (number_in 0 b 100). lia.
  - apply in_or_app. left. apply (number_in 100 b 0). lia.
Qed.

Lemma test_reader_positions_collide_witness :
  (250 <= 100 * Z.of_nat 3 < 250 + 100 /\ 100 < 250) /\
  ~ NoDup (map fst (enqueue_batches 0 (fst (test_drive 4 250 0)))).
Proof.
  assert (H1 : 250 <= 100 * Z.of_nat 3 < 250 + 100) by (cbn; lia).
  assert (H2 : 100 < 250) by lia.
  split; [split; assumption|]. exact (test_reader_positions_collide 250 3 H1 H2).
Defined.

(** ** DOAJValidator.run over several iterations *)

Lemma forall_snoc_some (l : list (option WorkItem)) (t : WorkItem) :
  Forall (fun x => x <> None) l -> Forall (fun x => x <> None) (l ++ [Some t]).
Proof.
  intro H. apply Forall_app. split; [exact H|]. constructor; [discriminate|constructor].
Qed.

Lemma queue_inv_put (q : PyQueue) (t : WorkItem) :
  queue_inv q -> queue_inv (q_put q (Some t)).
Proof.
  intros [Hu Hf]. split; cbn.
  - rewrite length_app, Hu. cbn. lia.
  - apply Forall_app. split; [exact Hf|]. constructor; [discriminate|constructor].
Qed.

(** One iteration on a source queue that satisfies [queue_inv] is a
    [Continue] step that keeps [queue_inv] on both queues; with a 200
    answer the dequeued item is not put back. *)
Lemma validator_iter_inv (st : WState) (task : WorkItem) (rest : list (option WorkItem))
      (resp : DoajResponse) :
  queue_inv (w_source st) -> queue_inv (w_sink st) ->
  q_items (w_source st) = Some task :: rest ->
  exists st',
    validator_iter st resp = Continue st' /\
    queue_inv (w_source st') /\ queue_inv (w_sink st') /\
    (d_status resp = 200 -> q_items (w_source st') = rest) /\
    (d_status resp <> 200 -> truthy_str (art_id (snd task)) = true ->
     q_items (w_source st') = rest ++ [Some task] /\ w_sink st' = w_sink st /\
     w_slept st' = w_slept st ++ (if d_status resp =? 429 then [doaj_delay] else [])).
Proof.
  intros [Hu Hf] Hsink Hsrc.
  destruct st as [[items u] sink slept]; cbn in *. subst items. subst u.
  inversion Hf as [|? ? _ Hrest]; subst.
  destruct task as [aid article].
  unfold validator_iter, q_get; cbn [q_items q_unfinished w_source w_sink w_slept].
  unfold validate_and_link.
  destruct (truthy_str (art_id article)) eqn:Hdoi.
  - destruct (d_status resp =? 200) eqn:H200.
    + apply Z.eqb_eq in H200.
      destruct (d_results resp) as [[|d ds]|]; cbn;
        (eexists; split; [reflexivity|]); cbn;
        (split; [split; [reflexivity|exact Hrest]|]);
        (split; [try apply queue_inv_put; assumption|]);
        (split; [reflexivity|]); intro Hne; contradiction.
    + apply Z.eqb_neq in H200.
      destruct (d_status resp =? 429) eqn:H429; cbn;
        (eexists; split; [reflexivity|]); cbn;
        (split; [split; [cbn; rewrite length_app; cbn; lia|
                         apply forall_snoc_some, Hrest]|]);
        (split; [assumption|]);
        (split; [intro; contradiction|]);
        intros _ _; repeat split; rewrite ?app_nil_r; reflexivity.
  - cbn. eexists. split; [reflexivity|]. cbn.
    split; [split; [reflexivity|exact Hrest]|].
    split; [assumption|]. split; [reflexivity|].
    intros _ Hf'. rewrite Hdoi in Hf'. discriminate.
Qed.

(** When every DOAJ answer is a 200, a validator that starts on a source
    queue of [m] work items (unfinished count [m]) and runs [m] iterations
    empties it and brings its unfinished count to 0, so [source.join()]
    returns; the sink keeps its accounting. *)
Theorem validator_drains_without_throttle :
  forall resps st,
    queue_inv (w_source st) -> queue_inv (w_sink st) ->
    Forall (fun r => d_status r = 200) resps ->
    List.length resps = List.length (q_items (w_source st)) ->
    exists st',
      validator_run st resps = Continue st' /\
      q_items (w_source st') = [] /\ q_unfinished (w_source st') = 0%nat /\
      queue_inv (w_sink st').
Proof.
  induction resps as [|r rs IH]; intros st Hsrc Hsink H200 Hlen.
  - exists st. split; [reflexivity|].
    destruct (q_items (w_source st)) eqn:E; [|discriminate].
    destruct Hsrc as [Hu _]. rewrite E in Hu. auto.
  - destruct (q_items (w_source st)) as [|x rest] eqn:E; [discriminate|].
    pose proof (proj2 Hsrc) as Hf. rewrite E in Hf.
    inversion Hf as [|? ? Hx _]; subst.
    destruct x as [task|]; [|contradiction].
    inversion H200 as [|? ? Hr Hrs]; subst.
    destruct (validator_iter_inv st task rest r Hsrc Hsink E)
      as (st1 & Hit & Hsrc1 & Hsink1 & Hok & _).
    cbn [validator_run]. rewrite Hit.
    apply IH; try assumption.
    rewrite (Hok Hr). cbn in Hlen. lia.
Qed.

Definition st_two : WState :=
  {| w_source := {| q_items := [Some (0, art1); Some (1, art_nodoaj)]; q_unfinished := 2 |};
     w_sink := {| q_items := []; q_unfinished := 0 |};
     w_slept := [] |}.

Lemma validator_drains_without_throttle_witness :
  queue_inv (w_source st_two) /\ queue_inv (w_sink st_two) /\
  exists st',
    validator_run st_two [doaj_match; mkDoajResponse 200 None] = Continue st' /\
    q_items (w_source st') = [] /\ q_unfinished (w_source st') = 0%nat /\
    queue_inv (w_sink st').
Proof.
  assert (H1 : queue_inv (w_source st_two)).
  { split; [reflexivity|]. repeat constructor; discriminate. }
  assert (H2 : queue_inv (w_sink st_two)) by (split; [reflexivity|constructor]).
  split; [exact H1|]. split; [exact H2|].
  apply (validator_drains_without_throttle _ st_two H1 H2); [|reflexivity].
  repeat constructor.
Defined.

(** A work item whose article has a truthy ['id'], the only kind the
    validator ever puts back. *)
Definition has_doi (x : option WorkItem) : Prop :=
  exists t, x = Some t /\ truthy_str (art_id (snd t)) = true.

(** When every DOAJ answer is a 429 and every queued article has a DOI, the
    validator never empties its source queue: after any number of
    iterations the queue has the same length and unfinished count, nothing
    reached the sink, and it slept [self._delay] seconds per iteration. *)
Theorem validator_throttled_never_drains :
  forall resps st,
    queue_inv (w_source st) -> queue_inv (w_sink st) ->
    q_items (w_source st) <> [] ->
    Forall has_doi (q_items (w_source st)) ->
    Forall (fun r => d_status r = 429) resps ->
    exists st',
      validator_run st resps = Continue st' /\
      List.length (q_items (w_source st')) = List.length (q_items (w_source st)) /\
      q_unfinished (w_source st') = q_unfinished (w_source st) /\
      w_sink st' = w_sink st /\
      w_slept st' = w_slept st ++ repeat doaj_delay (List.length resps).
Proof.
  induction resps as [|r rs IH]; intros st Hsrc Hsink Hne Hdoi H429.
  - exists st. cbn. rewrite app_nil_r. auto.
  - destruct (q_items (w_source st)) as [|x rest] eqn:E; [contradiction|].
    inversion Hdoi as [|? ? [task [-> Ht]] Hrest]; subst.
    inversion H429 as [|? ? Hr Hrs]; subst.
    destruct (validator_iter_inv st task rest r Hsrc Hsink E)
      as (st1 & Hit & Hsrc1 & Hsink1 & _ & Hre).
    assert (Hr' : d_status r <> 200) by (rewrite Hr; discriminate).
    destruct (Hre Hr' Ht) as (Hitems & Hsk & Hsl).
    rewrite Hr in Hsl. cbn in Hsl.
    destruct (IH st1 Hsrc1 Hsink1) as (st2 & Hrun & Hlen & Hu & Hsk2 & Hsl2).
    + rewrite Hitems. destruct rest; discriminate.
    + rewrite Hitems. apply Forall_app. split; [exact Hrest|].
      constructor; [exists task; auto|constructor].
    + exact Hrs.
    + exists st2. cbn [validator_run]. rewrite Hit. split; [exact Hrun|].
      rewrite Hlen, Hitems, length_app. cbn. split; [lia|].
      split.
      * rewrite Hu. destruct Hsrc1 as [Hu1 _]. destruct Hsrc as [Hu0 _].
        rewrite Hu1, Hu0, Hitems, E, length_app. cbn. lia.
      * split; [rewrite Hsk2; exact Hsk|].
        rewrite Hsl2, Hsl, <- app_assoc. reflexivity.
Qed.

Lemma validator_throttled_never_drains_witness :
  exists st',
    validator_run st_two [mkDoajResponse 429 None; mkDoajResponse 429 None;
                          mkDoajResponse 429 None] = Continue st' /\
    List.length (q_items (w_source st')) = 2%nat /\
    w_slept st' = [doaj_delay; doaj_delay; doaj_delay].
Proof.
  assert (H1 : queue_inv (w_source st_two)).
  { split; [reflexivity|]. repeat constructor; discriminate. }
  assert (H2 : queue_inv (w_sink st_two)) by (split; [reflexivity|constructor]).
  assert (H3 : q_items (w_source st_two) <> []) by discriminate.
  assert (H4 : Forall has_doi (q_items (w_source st_two))).
  { repeat constructor; eexists; split; reflexivity. }
  destruct (validator_throttled_never_drains
              [mkDoajResponse 429 None; mkDoajResponse 429 None; mkDoajResponse 429 None]
              st_two H1 H2 H3 H4 ltac:(repeat constructor))
    as (st' & Hrun & Hlen & _ & _ & Hsl).
  exists st'. split; [exact Hrun|]. split; [exact Hlen|]. exact Hsl.
Defined.

(** ** Counters.run and the counters *)

Lemma counters_run_S (f : nat) (st : CState) :
  counters_run (S f) st =
  match counters_iter st with
  | CContinue st' => counters_run f st'
  | other => other
  end.
Proof. reflexivity. Qed.

(** A [Counters] thread reading a sink whose front holds the work items
    [tasks] and then a sentinel folds the items into the shared counters in
    queue order, marks each one done, and exits on the sentinel, leaving the
    rest of the queue untouched. *)
Theorem counters_run_folds :
  forall tasks rest st,
    q_items (c_source st) = map Some tasks ++ None :: rest ->
    (List.length tasks <= q_unfinished (c_source st))%nat ->
    counters_run (S (List.length tasks)) st =
    CExit {| c_source := {| q_items := rest;
                            q_unfinished := q_unfinished (c_source st) - List.length tasks |};
             c_counts := aggregate (c_counts st) tasks |}.
Proof.
  induction tasks as [|t ts IH]; intros rest st Hq Hu;
    destruct st as [[items u] counts]; cbn in Hq, Hu; subst items.
  - unfold counters_run, counters_iter, q_get; cbn. rewrite Nat.sub_0_r. reflexivity.
  - destruct u as [|u]; [lia|].
    change (List.length (t :: ts)) with (S (List.length ts)).
    rewrite counters_run_S.
    replace (counters_iter _) with
      (CContinue {| c_source := {| q_items := map Some ts ++ None :: rest;
                                   q_unfinished := u |};
                    c_counts := update_counters counts t |}) by reflexivity.
    rewrite (IH rest); cbn; [reflexivity|reflexivity|lia].
Qed.

Lemma counters_run_folds_witness :
  counters_run 3 {| c_source := {| q_items := [Some (0, art1); Some (1, art_nojournal); None];
                                   q_unfinished := 3 |};
                    c_counts := empty_counters |} =
  CExit {| c_source := {| q_items := []; q_unfinished := 1 |};
           c_counts := aggregate empty_counters [(0, art1); (1, art_nojournal)] |}.
Proof.
  exact (counters_run_folds [(0, art1); (1, art_nojournal)] []
           {| c_source := {| q_items := [Some (0, art1); Some (1, art_nojournal); None];
                             q_unfinished := 3 |};
              c_counts := empty_counters |} eq_refl ltac:(cbn; lia)).
Defined.





(** ** Key order of a counter *)




(** ** Folding a counter into itself *)




(** ** What the author and journal counters count *)

(** After aggregating work items from empty counters, the count of an
    author key is the number of its occurrences in the items' author lists,
    and the count of a journal key [(journal, doaj_id, id)] is the number of
    items whose article has exactly that journal, DOAJ id and id. *)
Theorem aggregate_counts_occurrences :
  forall tasks k,
    cget (authors (aggregate empty_counters tasks)) k =
    sumZ (map (fun t => count_key k (author_keys (snd t))) tasks) /\
    cget (journals (aggregate empty_counters tasks)) k =
    Z.of_nat (List.length
                (List.filter (fun t => key_eqb k (art_journal (snd t), art_doaj_id (snd t),
                                                  art_id (snd t))) tasks)).
Proof.
  intros tasks k. split.
  - rewrite aggregate_authors. reflexivity.
  - rewrite aggregate_journals. cbn [journals empty_counters cget]. rewrite Z.add_0_l.
    induction tasks as [|t ts IH]; cbn [map sumZ List.filter]; [reflexivity|].
    rewrite IH. unfold journal_keys at 1. cbn [count_key].
    destruct (key_eqb k _); cbn [List.length]; lia.
Qed.

(** ** Edge cases of validate_and_link *)

(** A work item whose article has no truthy ['id'] is removed and marked
    done with no request made: whatever the DOAJ server would answer, the
    iteration leaves the sink, the sleep log and the rest of the queue as
    they were. *)
Theorem validator_no_doi_skips :
  forall st aid article rest resp,
    q_items (w_source st) = Some (aid, article) :: rest ->
    truthy_str (art_id article) = false ->
    (1 <= q_unfinished (w_source st))%nat ->
    validator_iter st resp =
    Continue {| w_source := {| q_items := rest;
                               q_unfinished := q_unfinished (w_source st) - 1 |};
                w_sink := w_sink st; w_slept := w_slept st |}.
Proof.
  intros st aid article rest resp Hsrc Hdoi Hu.
  run_iter Hsrc. rewrite Hdoi. cbn.
  destruct (q_unfinished (w_source st)) as [|u]; [lia|].
  cbn. rewrite Nat.sub_0_r. reflexivity.
Qed.

Definition art_no_id : Article :=
  {| art_id := Some ""%string; art_journal := Some "PLoS ONE"%string;
     art_author_display := None; art_doaj_id := None; art_doaj_authors := None |}.

Lemma validator_no_doi_skips_witness :
  validator_iter {| w_source := {| q_items := [Some (3, art_no_id)]; q_unfinished := 1 |};
                    w_sink := {| q_items := []; q_unfinished := 0 |}; w_slept := [] |}
                 doaj_match =
  Continue {| w_source := {| q_items := []; q_unfinished := 0 |};
              w_sink := {| q_items := []; q_unfinished := 0 |}; w_slept := [] |}.
Proof.
  exact (validator_no_doi_skips
           {| w_source := {| q_items := [Some (3, art_no_id)]; q_unfinished := 1 |};
              w_sink := {| q_items := []; q_unfinished := 0 |}; w_slept := [] |}
           3 art_no_id [] doaj_match eq_refl eq_refl ltac:(cbn; lia)).
Defined.

(** On a DOAJ status other than 200 and 429 the work item is put back at
    the end of the source queue without any sleep, and the unfinished-task
    count is unchanged. *)
Theorem validator_error_requeue_no_sleep :
  forall st aid article rest resp,
    q_items (w_source st) = Some (aid, article) :: rest ->
    truthy_str (art_id article) = true ->
    d_status resp <> 200 -> d_status resp <> 429 ->
    validator_iter st resp =
    Continue {| w_source := {| q_items := rest ++ [Some (aid, article)];
                               q_unfinished := q_unfinished (w_source st) |};
                w_sink := w_sink st; w_slept := w_slept st |}.
Proof.
  intros st aid article rest resp Hsrc Hdoi H200 H429.
  run_iter Hsrc. rewrite Hdoi.
  apply Z.eqb_neq in H200, H429. rewrite H200, H429. reflexivity.
Qed.

Lemma validator_error_requeue_no_sleep_witness :
  validator_iter st0 (mkDoajResponse 503 None) =
  Continue {| w_source := {| q_items := [Some (0, art_nodoaj)]; q_unfinished := 1 |};
              w_sink := w_sink st0; w_slept := [] |}.
Proof.
  exact (validator_error_requeue_no_sleep st0 0 art_nodoaj [] (mkDoajResponse 503 None)
           eq_refl eq_refl ltac:(cbn; lia) ltac:(cbn; lia)).
Defined.
